(** * Generators of src/3-generators.js

    The file src/3-generators.js demonstrates ES2015 generators:
    [genFunc], [foo]/[bar] (delegation with [yield*]), [dataConsumer]
    (values sent in through [next(v)]), [g] (the first [next]) and the
    [co] body (a failure handler around a [yield]).

    The generator machinery is the one of the language: a generator
    object has a state (suspendedStart, suspendedYield, executing,
    completed) and a saved context, [next(v)] / [throw(e)] resume it and
    [return(v)] closes it (ECMAScript GeneratorResume,
    GeneratorResumeAbrupt, GeneratorValidate).
    A generator body is embedded shallowly: each [yield] is a constructor
    whose continuation receives the completion the generator is resumed
    with, and every other statement becomes Rocq code.  Generator objects
    live in a shared store (a list indexed by object id) because a body
    may call [next] on any generator object, itself included. *)

From stdpp Require Import base list strings sorting.
Local Set Warnings "-register-all".

(** ** Values and completions *)

Inductive val : Type :=
| VUndef
| VStr (s : string)
| VList (xs : list val)
| VErr (kind : string) (msg : string)
| VResult (v : val) (done : bool).   (** the iterator result {value, done} *)

(** [String(v)], as used by template literals and by [+] with a string.
    An array is joined with "," ([Array.prototype.join]), an undefined
    element giving the empty string; an Error gives
    [Error.prototype.toString]: its name, its message, or both joined by
    ": " (one of them alone when the other is empty). *)
Fixpoint to_str (v : val) : string :=
  match v with
  | VUndef => "undefined"
  | VStr s => s
  | VList xs =>
      (fix go (l : list val) : string :=
         match l with
         | [] => ""
         | [x] => match x with VUndef => "" | _ => to_str x end
         | x :: r =>
             String.append (match x with VUndef => "" | _ => to_str x end)
                           (String.append "," (go r))
         end) xs
  | VErr k m =>
      if String.eqb k "" then m
      else if String.eqb m "" then k
      else String.append k (String.append ": " m)
  | VResult _ _ => "[object Object]"
  end.

(** A completion record: how a [yield] expression (or a call) finishes. *)
Inductive completion : Type :=
| Normal (v : val)
| Throw (e : val).

(** ** Generator bodies *)

Inductive body : Type :=
| Ret (v : val)                                    (** return v *)
| Raise (e : val)                                  (** throw e *)
| Log (msg : string) (rest : body)                 (** console.log(msg); rest *)
| Yield (v : val) (k : completion -> body)         (** yield v *)
| Deleg (inner : body) (k : completion -> body)    (** yield* of a fresh generator *)
| GenCall (gid : nat) (c : completion) (k : completion -> body).
    (** gen.next(v) (c = Normal v) or gen.throw(e) (c = Throw e) on object gid *)

(** Outcome of running a body until it pauses or finishes. *)
Inductive outcome : Type :=
| OYield (v : val) (k : completion -> body)
| OReturn (v : val)
| OThrow (e : val).

(** ** Generator objects and the store *)

Inductive gstate : Type :=
| SuspendedStart
| SuspendedYield
| Executing
| Completed.

Record gen : Type := mkGen {
  gen_state : gstate;
  gen_ctx : completion -> body   (** the saved [[GeneratorContext]] *)
}.

Record st : Type := mkSt {
  gens : list gen;        (** generator objects, by object id *)
  out : list string       (** console output, in order *)
}.

Definition log (s : st) (m : string) : st := mkSt (gens s) (out s ++ [m]).

Definition set_gen (s : st) (g : nat) (o : gen) : st :=
  mkSt (<[g := o]> (gens s)) (out s).

(** The context of a completed generator is never resumed again. *)
Definition done_ctx : completion -> body := fun _ => Ret VUndef.

Definition already_running : val :=
  VErr "TypeError" "Generator is already running".
Definition not_a_generator : val :=
  VErr "TypeError" "next method called on incompatible receiver".

(** A resumption function: object id, completion, store. *)
Definition resumer : Type := nat -> completion -> st -> option (st * completion).

(** Run a body until it yields, returns or throws.  [rs] performs the
    [next]/[throw] calls the body makes on generator objects. *)
Fixpoint exec (rs : resumer) (b : body) (s : st) : option (st * outcome) :=
  match b with
  | Ret v => Some (s, OReturn v)
  | Raise e => Some (s, OThrow e)
  | Log m b' => exec rs b' (log s m)
  | Yield v k => Some (s, OYield v k)
  | Deleg inner k =>
      match exec rs inner s with
      | None => None
      | Some (s', OYield v k') => Some (s', OYield v (fun c => Deleg (k' c) k))
      | Some (s', OReturn r) => exec rs (k (Normal r)) s'
      | Some (s', OThrow e) => exec rs (k (Throw e)) s'
      end
  | GenCall g c k =>
      match rs g c s with
      | None => None
      | Some (s', r) => exec rs (k r) s'
      end
  end.

(** GeneratorResume / GeneratorResumeAbrupt on object [g] with completion
    [c]: [Normal v] is [g.next(v)], [Throw e] is [g.throw(e)].  The result
    is [Normal {value, done}] or the exception thrown to the caller.
    [fuel] bounds the nesting of calls a body makes on generator objects;
    [None] means it ran out. *)
Fixpoint resume (fuel : nat) (g : nat) (c : completion) (s : st)
  : option (st * completion) :=
  match gens s !! g with
  | None => Some (s, Throw not_a_generator)
  | Some o =>
      match gen_state o, c with
      | Executing, _ => Some (s, Throw already_running)
      | Completed, Normal _ => Some (s, Normal (VResult VUndef true))
      | Completed, Throw e => Some (s, Throw e)
      | SuspendedStart, Throw e => Some (set_gen s g (mkGen Completed done_ctx), Throw e)
      | _, _ =>
          let rs : resumer :=
            match fuel with
            | 0 => fun _ _ _ => None
            | S f => resume f
            end in
          match exec rs (gen_ctx o c) (set_gen s g (mkGen Executing (gen_ctx o))) with
          | None => None
          | Some (s', OYield v k) =>
              Some (set_gen s' g (mkGen SuspendedYield k), Normal (VResult v false))
          | Some (s', OReturn v) =>
              Some (set_gen s' g (mkGen Completed done_ctx), Normal (VResult v true))
          | Some (s', OThrow e) =>
              Some (set_gen s' g (mkGen Completed done_ctx), Throw e)
          end
      end
  end.

(** Calling a generator function: a new object in suspendedStart whose
    context starts the body and ignores the value it is resumed with. *)
Definition create (b : body) (s : st) : nat * st :=
  (length (gens s), mkSt (gens s ++ [mkGen SuspendedStart (fun _ => b)]) (out s)).

Definition next (fuel g : nat) (v : val) (s : st) := resume fuel g (Normal v) s.
Definition throw_into (fuel g : nat) (e : val) (s : st) := resume fuel g (Throw e) s.

(** [g.return(v)], the spec's [close]: GeneratorResumeAbrupt with a
    return completion.  A running object throws the "already running"
    TypeError; a completed one answers {value: v, done: true}; a fresh one
    is completed without running.  On an object paused at a [yield], the
    return completion resumes the body there and finishes it: the bodies
    of this file have no [finally] block, [catch] does not catch a
    return completion, and [yield*] forwards it to the inner generator's
    [return], which finishes that one the same way; so no statement of
    the body runs and the call answers {value: v, done: true}. *)
Definition close (g : nat) (v : val) (s : st) : st * completion :=
  match gens s !! g with
  | None => (s, Throw not_a_generator)
  | Some o =>
      match gen_state o with
      | Executing => (s, Throw already_running)
      | Completed => (s, Normal (VResult v true))
      | _ => (set_gen s g (mkGen Completed done_ctx), Normal (VResult v true))
      end
  end.

Definition init : st := mkSt [] [].

(** ** Statement forms used by the source's generators *)

(** [yield v] whose value is used by [k]; a [throw] injected there
    propagates out of the expression. *)
Definition yield_ (v : val) (k : val -> body) : body :=
  Yield v (fun c => match c with Normal x => k x | Throw e => Raise e end).

(** [yield* inner()] whose value (the inner return value) is used by [k]. *)
Definition yield_star (inner : body) (k : val -> body) : body :=
  Deleg inner (fun c => match c with Normal x => k x | Throw e => Raise e end).

(** [try { b } catch (e) { h(e) }] as the last statement of a body. *)
Fixpoint try_ (b : body) (h : val -> body) : body :=
  match b with
  | Ret v => Ret v
  | Raise e => h e
  | Log m b' => Log m (try_ b' h)
  | Yield v k => Yield v (fun c => try_ (k c) h)
  | Deleg i k => Deleg i (fun c => try_ (k c) h)
  | GenCall g c k => GenCall g c (fun r => try_ (k r) h)
  end.

(** [for (let x of xs) { step(x) }; after], the loop body continuing
    with the rest of the iteration. *)
Fixpoint for_of (xs : list val) (step : val -> body -> body) (after : body) : body :=
  match xs with
  | [] => after
  | x :: r => step x (for_of r step after)
  end.

(** ** The generators of src/3-generators.js *)

(** lines 15-19 *)
Definition genFunc : body :=
  Log "First" (yield_ VUndef (fun _ => Log "Second" (Ret VUndef))).

(** lines 91-94 *)
Definition foo : body :=
  yield_ (VStr "a") (fun _ => yield_ (VStr "b") (fun _ => Ret VUndef)).

(** lines 96-100 *)
Definition bar : body :=
  yield_ (VStr "x") (fun _ =>
  yield_star foo (fun _ =>
  yield_ (VStr "y") (fun _ => Ret VUndef))).

(** lines 158-162 (the refactored genFunc) *)
Definition genFunc_for_of : body :=
  for_of [VStr "a"; VStr "b"] (fun x rest => yield_ x (fun _ => rest)) (Ret VUndef).

(** lines 172-177 *)
Definition dataConsumer : body :=
  Log "Started" (
  yield_ VUndef (fun x1 =>
  Log (String.append "1. " (to_str x1)) (
  yield_ VUndef (fun x2 =>
  Log (String.append "2. " (to_str x2)) (
  Ret (VStr "result")))))).

(** line 209 *)
Definition g_body : body := yield_ VUndef (fun _ => Ret VUndef).

(** lines 69-83: the body handed to [co].  The host functions it uses
    are parameters: [all] is how evaluating the [yield] operand
    [Promise.all([getFile(..), getFile(..)])] finishes (the promise, or
    the exception a [getFile] call throws, inside the [try]);
    [JSON_parse] is the host's JSON.parse (it may throw); [inspect] is
    Node's [util.inspect], which [console.log] uses for a value that is
    not a string.  [co] resumes the generator with the value the promise
    resolves to, or throws its rejection into it. *)

(** The [i]-th character of a string, as a one-character string. *)
Definition str_char (i : nat) (s : string) : val :=
  match String.get i s with
  | Some c => VStr (String c EmptyString)
  | None => VUndef
  end.

(** [let [a, b] = v]: destructuring iterates [v]; an array gives its first
    two elements and a string its first two characters (undefined when
    missing); undefined, an Error or a plain object is not iterable. *)
Definition destructure2 (v : val) : option (val * val) :=
  match v with
  | VList l => Some (nth 0 l VUndef, nth 1 l VUndef)
  | VStr s => Some (str_char 0 s, str_char 1 s)
  | _ => None
  end.

(** The line [console.log(x)] prints: a string as it is, any other value
    as [util.inspect] renders it. *)
Definition console_str (inspect : val -> string) (v : val) : string :=
  match v with
  | VStr s => s
  | _ => inspect v
  end.

(** The statements after the [yield] inside the [try] block. *)
Definition co_block (JSON_parse : val -> completion) (inspect : val -> string) (v : val) : body :=
  match destructure2 v with
  | None => Raise (VErr "TypeError" "value is not iterable")
  | Some (croftStr, bondStr) =>
      match JSON_parse croftStr with
      | Throw e => Raise e
      | Normal croftJson =>
          match JSON_parse bondStr with
          | Throw e => Raise e
          | Normal bondJson =>
              Log (console_str inspect croftJson)
                  (Log (console_str inspect bondJson) (Ret VUndef))
          end
      end
  end.

(** The [catch (e)] block. *)
Definition co_handler (e : val) : body :=
  Log (String.append "Failure to read: " (to_str e)) (Ret VUndef).

Definition co_body (all : completion) (JSON_parse : val -> completion)
    (inspect : val -> string) : body :=
  try_ (match all with
        | Normal p => yield_ p (co_block JSON_parse inspect)
        | Throw e => Raise e
        end) co_handler.

(** The promise [Promise.all([...])] evaluates to, in the examples. *)
Definition promise_all : val := VStr "Promise.all([getFile(croft), getFile(bond)])".

(** [util.inspect] for the examples' values, which fit on one line: a
    string in single quotes, an array as [[ x, y ]] (empty: [[]]), an
    iterator result as [{ value: x, done: b }].  An Error is shown by its
    [toString] only (Node adds the stack trace); no example prints one. *)
Fixpoint inspect_short (v : val) : string :=
  match v with
  | VUndef => "undefined"
  | VStr s => String.append "'" (String.append s "'")
  | VList [] => "[]"
  | VList xs =>
      String.append "[ "
        (String.append
           ((fix go (l : list val) : string :=
               match l with
               | [] => ""
               | [x] => inspect_short x
               | x :: r => String.append (inspect_short x) (String.append ", " (go r))
               end) xs) " ]")
  | VErr k m => to_str (VErr k m)
  | VResult v d =>
      String.append "{ value: "
        (String.append (inspect_short v)
           (String.append ", done: " (String.append (if d then "true" else "false") " }")))
  end.

(** A host JSON.parse good enough for the examples: it returns its input. *)
Definition JSON_parse_id (v : val) : completion := Normal v.

(** ** Driving a generator *)

(** Successive [next(x)] calls, collecting the results. *)
Fixpoint nexts (fuel g : nat) (xs : list val) (s : st) : option (st * list completion) :=
  match xs with
  | [] => Some (s, [])
  | x :: r =>
      match next fuel g x s with
      | None => None
      | Some (s', c) =>
          match nexts fuel g r s' with
          | None => None
          | Some (s'', cs) => Some (s'', c :: cs)
          end
      end
  end.

(** Spreading a generator ([...gen]): [next()] until [done], keeping the
    yielded values and dropping the return value.  [n] bounds the number
    of calls; an exception or running out gives [None]. *)
Fixpoint drain (fuel n g : nat) (s : st) : option (list val) :=
  match n with
  | 0 => None
  | S n' =>
      match next fuel g VUndef s with
      | Some (s', Normal (VResult v false)) =>
          match drain fuel n' g s' with
          | None => None
          | Some vs => Some (v :: vs)
          end
      | Some (_, Normal (VResult _ true)) => Some []
      | _ => None
      end
  end.

(** The resumption function a body's calls go through. *)
Definition rs_of (fuel : nat) : resumer :=
  match fuel with 0 => fun _ _ _ => None | S f => resume f end.

(** What [resume] does with the outcome of the body. *)
Definition finish (g : nat) (r : option (st * outcome)) : option (st * completion) :=
  match r with
  | None => None
  | Some (s', OYield v k) => Some (set_gen s' g (mkGen SuspendedYield k), Normal (VResult v false))
  | Some (s', OReturn v) => Some (set_gen s' g (mkGen Completed done_ctx), Normal (VResult v true))
  | Some (s', OThrow e) => Some (set_gen s' g (mkGen Completed done_ctx), Throw e)
  end.

Definition runnable (o : gen) (c : completion) : Prop :=
  gen_state o = SuspendedYield \/
  (gen_state o = SuspendedStart /\ exists v, c = Normal v).

(** ** Bodies with a fixed number of suspensions *)

(** [npoints b n]: along every sequence of [next] inputs, [b] logs, then
    suspends exactly [n] times, then returns (no throw, no delegation, no
    calls on generator objects). *)
Inductive npoints : body -> nat -> Prop :=
| np_ret v : npoints (Ret v) 0
| np_log m b n : npoints b n -> npoints (Log m b) n
| np_yield v k n : (forall x, npoints (k (Normal x)) n) -> npoints (Yield v k) (S n).

(** The value such a body returns when its suspensions are resumed with
    the inputs [xs], in order. *)
Fixpoint final_value (b : body) (xs : list val) : val :=
  match b with
  | Ret v => v
  | Log _ b' => final_value b' xs
  | Yield _ k =>
      match xs with
      | x :: r => final_value (k (Normal x)) r
      | [] => VUndef
      end
  | _ => VUndef
  end.

(** The value such a body yields at its first suspension. *)
Fixpoint first_yield (b : body) : val :=
  match b with
  | Log _ b' => first_yield b'
  | Yield v _ => v
  | _ => VUndef
  end.

(** ** Straight-line yields and delegation *)

(** [yield v1; ...; yield vn; k] *)
Fixpoint yields_then (vs : list val) (k : body) : body :=
  match vs with
  | [] => k
  | v :: r => yield_ v (fun _ => yields_then r k)
  end.

(** The outer generator of the [bar]/[foo] pattern: yields [xs], then
    [yield*] of an inner generator yielding [ys] and returning [r], then
    yields [zs] and returns [r']. *)
Definition delegating (xs ys zs : list val) (r r' : val) : body :=
  yields_then xs (yield_star (yields_then ys (Ret r)) (fun _ => yields_then zs (Ret r'))).

(** [drain] from object [g] gives [rest] in [n] calls whenever the
    context of [g], resumed with [undefined], runs like [T]. *)
Definition drains_from (fuel n g : nat) (T : body) (rest : list val) : Prop :=
  forall s C stt,
    gens s !! g = Some (mkGen stt C) ->
    stt = SuspendedStart \/ stt = SuspendedYield ->
    (forall rs s0, exec rs (C (Normal VUndef)) s0 = exec rs T s0) ->
    drain fuel n g s = Some rest.

(** ** The lifecycle order of generator states *)

(** [fwd a b]: moving from state [a] to state [b] goes forward: never
    back to suspendedStart, never out of completed. *)
Definition fwd (a b : gstate) : Prop :=
  (b = SuspendedStart -> a = SuspendedStart) /\ (a = Completed -> b = Completed).

(** Every generator object of [s] is still there in [s'] and its state
    moved forward. *)
Definition store_fwd (s s' : st) : Prop :=
  length (gens s') = length (gens s) /\
  forall i o, gens s !! i = Some o ->
    exists o', gens s' !! i = Some o' /\ fwd (gen_state o) (gen_state o').

(** A generator (object 0) whose body calls [next] on itself. *)
Definition reentrant : body :=
  GenCall 0 (Normal VUndef) (fun c => match c with Normal v => Ret v | Throw e => Raise e end).

(** ** Concrete stores *)

Definition after_nexts (fuel g : nat) (xs : list val) (s : st) : st :=
  match nexts fuel g xs s with Some (s', _) => s' | None => s end.

(** [genFunc] run to completion. *)
Definition genFunc_done : st := after_nexts 0 0 [VUndef; VUndef] (snd (create genFunc init)).

(** [co]'s generator paused at its [yield Promise.all(...)]. *)
Definition co_paused : st :=
  after_nexts 0 0 [VUndef] (snd (create (co_body (Normal promise_all) JSON_parse_id inspect_short) init)).

(** [dataConsumer] paused at its first [yield]. *)
Definition dataConsumer_paused : st := after_nexts 0 0 [VUndef] (snd (create dataConsumer init)).

Definition read_error : val := VErr "Error" "ENOENT".

Definition boom : val := VErr "Error" "boom".

(** ** objectEntries (lines 40-59) *)

(** A plain object's own string-keyed properties, in creation order. *)
Definition jsobj : Type := list (string * val).

(** [obj[k]]: the property's value, [undefined] when it is missing. *)
Fixpoint get (obj : jsobj) (k : string) : val :=
  match obj with
  | [] => VUndef
  | (k', v) :: r => if decide (k = k') then v else get r k
  end.

Definition is_digit (c : Ascii.ascii) : bool :=
  let n := Ascii.nat_of_ascii c in (48 <=? n) && (n <=? 57).

Definition digits_value (l : list Ascii.ascii) : N :=
  fold_left (fun acc c => (10 * acc + N.of_nat (Ascii.nat_of_ascii c - 48))%N) l 0%N.

(** An array index: a canonical decimal numeral below 2^32 - 1. *)
Definition is_array_index (k : string) : bool :=
  let l := String.list_ascii_of_string k in
  match l with
  | [] => false
  | c :: r =>
      forallb is_digit l &&
      (bool_decide (r = []) || negb (Nat.eqb (Ascii.nat_of_ascii c) 48)) &&
      bool_decide (digits_value l < 4294967295)%N
  end.

Definition key_le (a b : string) : Prop :=
  (digits_value (String.list_ascii_of_string a) <= digits_value (String.list_ascii_of_string b))%N.

#[local] Instance key_le_dec : RelDecision key_le.
Proof. intros a b. unfold key_le. apply _. Defined.

(** [Reflect.ownKeys(obj)] for string keys: array indices in ascending
    numeric order, then the other keys in creation order. *)
Definition own_keys (obj : jsobj) : list string :=
  let ks := map fst obj in
  merge_sort key_le (List.filter is_array_index ks)
    ++ List.filter (fun k => negb (is_array_index k)) ks.

Definition prop (obj : jsobj) (k : val) : val :=
  match k with VStr s => get obj s | _ => VUndef end.

Definition objectEntries (obj : jsobj) : body :=
  for_of (map VStr (own_keys obj))
    (fun propKey rest => yield_ (VList [propKey; prop obj propKey]) (fun _ => rest))
    (Ret VUndef).

Definition jane : jsobj := [("first", VStr "Jane"); ("last", VStr "Doe")].

(** ** BinaryTree (lines 113-147) *)

(** A [BinaryTree] object or [null]. *)
Inductive btree : Type :=
| BNull
| BNode (value : val) (left right : btree).

(** The generator method [*[Symbol.iterator]()]; [yield* this.left] runs
    the iterator of the left subtree.  It is only ever called on a node:
    both children are tested before the [yield*]. *)
Fixpoint tree_iter (t : btree) : body :=
  match t with
  | BNull => Ret VUndef
  | BNode v l r =>
      yield_ v (fun _ =>
        let after_left :=
          match r with
          | BNull => Ret VUndef
          | _ => yield_star (tree_iter r) (fun _ => Ret VUndef)
          end in
        match l with
        | BNull => after_left
        | _ => yield_star (tree_iter l) (fun _ => after_left)
        end)
  end.

Fixpoint preorder (t : btree) : list val :=
  match t with
  | BNull => []
  | BNode v l r => v :: preorder l ++ preorder r
  end.

Definition source_tree : btree :=
  BNode (VStr "a")
    (BNode (VStr "b") (BNode (VStr "c") BNull BNull) (BNode (VStr "d") BNull BNull))
    (BNode (VStr "e") BNull BNull).

(** ** Yielding every element of an array (lines 158-162) *)

Definition for_yield (xs : list val) : body :=
  for_of xs (fun x rest => yield_ x (fun _ => rest)) (Ret VUndef).

(** ** Bodies seen through nested [yield*] *)

(** [plug ks b]: [b] running as the innermost of nested [yield*]
    delegations whose continuations are [ks], innermost first. *)
Fixpoint plug (ks : list (completion -> body)) (b : body) : body :=
  match ks with
  | [] => b
  | K :: ks' => plug ks' (Deleg b K)
  end.

(** [emits b vs r]: driven by [next()], [b] yields [vs] and returns [r],
    wherever it runs inside nested [yield*] delegations. *)
Definition emits (b : body) (vs : list val) (r : val) : Prop :=
  forall fuel n g ks rest,
    drains_from fuel n g (plug ks (Ret r)) rest ->
    drains_from fuel (length vs + n) g (plug ks b) (vs ++ rest).

(** * Properties *)

Example genFunc_run :
  let '(gid, s) := create genFunc init in
  match nexts 0 gid [VUndef; VUndef] s with
  | Some (s', cs) => out s' = ["First"; "Second"] /\
                     cs = [Normal (VResult VUndef false); Normal (VResult VUndef true)]
  | None => False
  end.
Proof. vm_compute. auto. Qed.

Example bar_run : drain 0 10 0 (snd (create bar init)) = Some [VStr "x"; VStr "a"; VStr "b"; VStr "y"].
Proof. vm_compute. reflexivity. Qed.

Example for_of_run : drain 0 10 0 (snd (create genFunc_for_of init)) = Some [VStr "a"; VStr "b"].
Proof. vm_compute. reflexivity. Qed.

Example dataConsumer_run :
  match nexts 0 0 [VUndef; VStr "a"; VStr "b"] (snd (create dataConsumer init)) with
  | Some (s', cs) => out s' = ["Started"; "1. a"; "2. b"] /\
      cs = [Normal (VResult VUndef false); Normal (VResult VUndef false);
            Normal (VResult (VStr "result") true)]
  | None => False
  end.
Proof. vm_compute. auto. Qed.

Lemma exec_npoints_0 rs b s :
  npoints b 0 ->
  exists logs, exec rs b s = Some (mkSt (gens s) (out s ++ logs), OReturn (final_value b [])).
Proof.
  remember 0 as n eqn:Hn. intros Hnp. revert s Hn.
  induction Hnp as [v | m b n Hnp IH | v k n Hk IH]; intros s Hn; try discriminate.
  - exists []. destruct s; simpl. by rewrite app_nil_r.
  - destruct (IH (log s m) Hn) as [logs Hlogs]. exists (m :: logs). simpl.
    rewrite Hlogs. destruct s; simpl. by rewrite <- app_assoc.
Qed.

Lemma exec_npoints_S rs b n s :
  npoints b (S n) ->
  exists logs v k,
    exec rs b s = Some (mkSt (gens s) (out s ++ logs), OYield v k) /\
    (forall x, npoints (k (Normal x)) n) /\
    (forall x xs, final_value b (x :: xs) = final_value (k (Normal x)) xs).
Proof.
  remember (S n) as m eqn:Hm. intros Hnp. revert s n Hm.
  induction Hnp as [v | msg b m Hnp IH | v k m Hk IH]; intros s n Hm; try discriminate.
  - destruct (IH (log s msg) n Hm) as (logs & v & k & Hex & Hk & Hf).
    exists (msg :: logs), v, k. simpl. rewrite Hex. split; [|by auto].
    destruct s; simpl. by rewrite <- app_assoc.
  - injection Hm as ->. exists [], v, k. simpl. split; [|by auto].
    destruct s; simpl. by rewrite app_nil_r.
Qed.

Lemma npoints_first_yield rs b n s s' v k :
  npoints b (S n) -> exec rs b s = Some (s', OYield v k) -> v = first_yield b.
Proof.
  remember (S n) as m eqn:Hm. intros Hnp. revert s Hm.
  induction Hnp as [v' | msg b' m Hnp IH | v' k' m Hk IH]; intros s Hm Hex;
    try discriminate.
  - simpl in Hex. exact (IH (log s msg) Hm Hex).
  - simpl in Hex. injection Hex as _ -> _. reflexivity.
Qed.

Lemma set_gen_lookup_eq s g o o' :
  gens s !! g = Some o -> gens (set_gen s g o') !! g = Some o'.
Proof.
  intros H. simpl. apply list_lookup_insert_eq. by eapply lookup_lt_Some.
Qed.

Lemma set_gen_length s g o : length (gens (set_gen s g o)) = length (gens s).
Proof. apply length_insert. Qed.

Lemma resume_run fuel g c s o :
  gens s !! g = Some o -> runnable o c ->
  resume fuel g c s =
    finish g (exec (rs_of fuel) (gen_ctx o c) (set_gen s g (mkGen Executing (gen_ctx o)))).
Proof.
  intros Hg Hst. destruct o as [stt C].
  destruct Hst as [Hy | [Hs [v ->]]]; simpl in *; subst;
    destruct fuel; simpl; rewrite Hg; reflexivity.
Qed.

Lemma nexts_npoints fuel xs : forall x0 C stt s g,
  gens s !! g = Some (mkGen stt C) ->
  stt = SuspendedStart \/ stt = SuspendedYield ->
  npoints (C (Normal x0)) (length xs) ->
  exists s' vs,
    nexts fuel g (x0 :: xs) s =
      Some (s', map (fun v => Normal (VResult v false)) vs
                 ++ [Normal (VResult (final_value (C (Normal x0)) xs) true)]) /\
    length vs = length xs.
Proof.
  induction xs as [|x1 xs IH]; intros x0 C stt s g Hg Hst Hnp;
    (assert (Hrun : runnable (mkGen stt C) (Normal x0))
      by (destruct Hst as [-> | ->]; [right; eauto | left; done]));
    pose proof (resume_run fuel g (Normal x0) s _ Hg Hrun) as Hres; simpl in Hres.
  - destruct (exec_npoints_0 (rs_of fuel) (C (Normal x0))
                (set_gen s g (mkGen Executing C)) Hnp) as [logs Hex].
    eexists; exists []. split; [|done].
    cbn [nexts]. unfold next. rewrite Hres, Hex. reflexivity.
  - destruct (exec_npoints_S (rs_of fuel) (C (Normal x0)) (length xs)
                (set_gen s g (mkGen Executing C)) Hnp)
      as (logs & v & k & Hex & Hk & Hf).
    set (s1 := set_gen (mkSt (gens (set_gen s g (mkGen Executing C)))
                             (out (set_gen s g (mkGen Executing C)) ++ logs))
                       g (mkGen SuspendedYield k)).
    assert (Hg1 : gens s1 !! g = Some (mkGen SuspendedYield k)).
    { unfold s1. eapply set_gen_lookup_eq. simpl.
      eapply set_gen_lookup_eq. exact Hg. }
    destruct (IH x1 k SuspendedYield s1 g Hg1 (or_intror eq_refl) (Hk x1))
      as (s' & vs & Hnexts & Hlen).
    exists s', (v :: vs). split; [|simpl; by rewrite Hlen].
    assert (Hstep : next fuel g x0 s = Some (s1, Normal (VResult v false))).
    { unfold next. rewrite Hres, Hex. reflexivity. }
    change (nexts fuel g (x0 :: x1 :: xs) s) with
      (match next fuel g x0 s with
       | None => None
       | Some (s', c) =>
           match nexts fuel g (x1 :: xs) s' with
           | None => None
           | Some (s'', cs) => Some (s'', c :: cs)
           end
       end).
    rewrite Hstep, Hnexts, Hf. reflexivity.
Qed.

Lemma create_lookup b s :
  gens (snd (create b s)) !! fst (create b s) = Some (mkGen SuspendedStart (fun _ => b)).
Proof. simpl. rewrite lookup_app_r by lia. by rewrite Nat.sub_diag. Qed.

(** ** Draining and delegation *)

Lemma drain_step fuel n g s o v k s' :
  gens s !! g = Some o -> runnable o (Normal VUndef) ->
  exec (rs_of fuel) (gen_ctx o (Normal VUndef)) (set_gen s g (mkGen Executing (gen_ctx o)))
    = Some (s', OYield v k) ->
  drain fuel (S n) g s =
    match drain fuel n g (set_gen s' g (mkGen SuspendedYield k)) with
    | None => None
    | Some vs => Some (v :: vs)
    end.
Proof.
  intros Hg Hrun Hex. cbn [drain]. unfold next.
  rewrite (resume_run fuel g _ s o Hg Hrun), Hex. reflexivity.
Qed.

Lemma drain_return fuel n g s o r s' :
  gens s !! g = Some o -> runnable o (Normal VUndef) ->
  exec (rs_of fuel) (gen_ctx o (Normal VUndef)) (set_gen s g (mkGen Executing (gen_ctx o)))
    = Some (s', OReturn r) ->
  drain fuel (S n) g s = Some [].
Proof.
  intros Hg Hrun Hex. cbn [drain]. unfold next.
  rewrite (resume_run fuel g _ s o Hg Hrun), Hex. reflexivity.
Qed.

Lemma runnable_of stt C v :
  stt = SuspendedStart \/ stt = SuspendedYield -> runnable (mkGen stt C) (Normal v).
Proof. intros [-> | ->]; [right; eauto | left; done]. Qed.

Lemma drains_from_ret fuel n g r : drains_from fuel (S n) g (Ret r) [].
Proof.
  intros s C stt Hg Hst HC.
  eapply (drain_return _ _ _ _ _ r); [exact Hg | by apply runnable_of |].
  simpl. rewrite HC. reflexivity.
Qed.

Lemma drains_from_yields_then fuel n g T rest vs :
  drains_from fuel n g T rest ->
  drains_from fuel (length vs + n) g (yields_then vs T) (vs ++ rest).
Proof.
  intros HT. induction vs as [|v vs IH]; [exact HT|].
  intros s C stt Hg Hst HC. cbn [length Nat.add].
  set (K := fun c => match c with Normal _ => yields_then vs T | Throw e => Raise e end).
  set (s1 := set_gen s g (mkGen Executing C)).
  rewrite (drain_step _ _ _ _ _ v K s1 Hg (runnable_of _ _ _ Hst));
    [| simpl; rewrite HC; reflexivity].
  rewrite (IH (set_gen s1 g (mkGen SuspendedYield K)) K SuspendedYield);
    [reflexivity | | by right | by auto].
  eapply set_gen_lookup_eq, set_gen_lookup_eq, Hg.
Qed.

Lemma drains_from_deleg fuel n g K r rest ys :
  drains_from fuel n g (K (Normal r)) rest ->
  drains_from fuel (length ys + n) g (Deleg (yields_then ys (Ret r)) K) (ys ++ rest).
Proof.
  intros HK. induction ys as [|y ys IH].
  - intros s C stt Hg Hst HC. apply (HK s C stt Hg Hst).
    intros rs s0. rewrite HC. reflexivity.
  - intros s C stt Hg Hst HC. cbn [length Nat.add].
    set (K' := fun c => Deleg (match c with Normal _ => yields_then ys (Ret r)
                                          | Throw e => Raise e end) K).
    set (s1 := set_gen s g (mkGen Executing C)).
    rewrite (drain_step _ _ _ _ _ y K' s1 Hg (runnable_of _ _ _ Hst));
      [| simpl; rewrite HC; reflexivity].
    rewrite (IH (set_gen s1 g (mkGen SuspendedYield K')) K' SuspendedYield);
      [reflexivity | | by right | by auto].
    eapply set_gen_lookup_eq, set_gen_lookup_eq, Hg.
Qed.

Lemma bar_delegating : bar = delegating [VStr "x"] [VStr "a"; VStr "b"] [VStr "y"] VUndef VUndef.
Proof. reflexivity. Qed.

Lemma npoints_dataConsumer : npoints dataConsumer 2.
Proof. repeat (constructor; intros). Qed.

(** ** Claims *)

(** C1: a generator whose body suspends N times (N >= 0) before it
    returns reaches [done: true] at exactly the (N+1)-th [next] call: the
    first N calls report [done: false] and the last one carries the
    return value.  With N = 0 the first call already returns
    {value: <return value>, done: true}.  (The input of the first call is
    ignored; [xs] are the values sent to the N suspensions.) *)
Theorem C1_suspensions_then_done fuel b n x0 xs s :
  npoints b n -> length xs = n ->
  exists s' vs,
    nexts fuel (fst (create b s)) (x0 :: xs) (snd (create b s)) =
      Some (s', map (fun v => Normal (VResult v false)) vs
                 ++ [Normal (VResult (final_value b xs) true)]) /\
    length vs = n.
Proof.
  intros Hnp Hlen. subst n.
  exact (nexts_npoints fuel xs x0 (fun _ => b) SuspendedStart _ _
           (create_lookup b s) (or_introl eq_refl) Hnp).
Qed.

Lemma C1_suspensions_then_done_witness :
  (npoints dataConsumer 2 /\ length [VStr "a"; VStr "b"] = 2) /\
  exists s' vs,
    nexts 0 (fst (create dataConsumer init)) (VUndef :: [VStr "a"; VStr "b"])
          (snd (create dataConsumer init)) =
      Some (s', map (fun v => Normal (VResult v false)) vs
                 ++ [Normal (VResult (final_value dataConsumer [VStr "a"; VStr "b"]) true)]) /\
    length vs = 2.
Proof.
  split; [split; [exact npoints_dataConsumer | reflexivity] |].
  apply (C1_suspensions_then_done 0 dataConsumer 2 VUndef [VStr "a"; VStr "b"] init);
    [exact npoints_dataConsumer | reflexivity].
Defined.

(** C2: draining ([...gen]) an outer generator that yields [xs], then
    delegates with [yield*] to an inner generator yielding [ys], then
    yields [zs], produces [xs ++ ys ++ zs]: the inner values surface as
    if the outer generator had yielded them itself.  For [bar]/[foo]
    (lines 91-104) this is ['x','a','b','y']. *)
Theorem C2_delegation_drain fuel xs ys zs r r' :
  drain fuel (length xs + (length ys + (length zs + 1))) 0
        (snd (create (delegating xs ys zs r r') init)) = Some (xs ++ ys ++ zs ++ []) /\
  drain fuel 5 0 (snd (create bar init)) = Some [VStr "x"; VStr "a"; VStr "b"; VStr "y"].
Proof.
  assert (Hgen : forall xs ys zs r r',
            drains_from fuel (length xs + (length ys + (length zs + 1))) 0
                        (delegating xs ys zs r r') (xs ++ ys ++ zs ++ [])).
  { intros xs' ys' zs' q q'. unfold delegating.
    apply drains_from_yields_then, drains_from_deleg.
    apply drains_from_yields_then, drains_from_ret. }
  split.
  - apply (Hgen xs ys zs r r' _ (fun _ => delegating xs ys zs r r') SuspendedStart);
      [apply (create_lookup _ init) | by left | done].
  - rewrite bar_delegating.
    pose proof (Hgen [VStr "x"] [VStr "a"; VStr "b"] [VStr "y"] VUndef VUndef _ _ SuspendedStart
                  (create_lookup _ init) (or_introl eq_refl) (fun _ _ => eq_refl)) as Hbar.
    cbn [length Nat.add app] in Hbar. exact Hbar.
Qed.

(** C3: [dataConsumer] (lines 172-196) driven with [next()],
    [next('a')], [next('b')] returns {value: undefined, done: false},
    {value: undefined, done: false}, {value: 'result', done: true}. *)
Theorem C3_dataConsumer_results fuel :
  exists s',
    nexts fuel 0 [VUndef; VStr "a"; VStr "b"] (snd (create dataConsumer init)) =
      Some (s', [Normal (VResult VUndef false); Normal (VResult VUndef false);
                 Normal (VResult (VStr "result") true)]).
Proof. destruct fuel; eexists; reflexivity. Qed.

(** ** The lifecycle only moves forward *)

Lemma fwd_refl a : fwd a a.
Proof. split; auto. Qed.

Lemma store_fwd_refl s : store_fwd s s.
Proof. split; [done|]. intros i o H. exists o. split; [done | apply fwd_refl]. Qed.

Lemma fwd_trans a b c : fwd a b -> fwd b c -> fwd a c.
Proof. intros [H1 H2] [H3 H4]. split; auto. Qed.

Lemma store_fwd_trans s1 s2 s3 : store_fwd s1 s2 -> store_fwd s2 s3 -> store_fwd s1 s3.
Proof.
  intros [L1 F1] [L2 F2]. split; [lia|].
  intros i o H. destruct (F1 i o H) as (o2 & H2 & Hf2).
  destruct (F2 i o2 H2) as (o3 & H3 & Hf3). exists o3. split; [done|].
  eapply fwd_trans; eauto.
Qed.

Lemma store_fwd_log s m : store_fwd s (log s m).
Proof. split; [done|]. intros i o H. exists o. split; [done | apply fwd_refl]. Qed.

Definition rs_fwd (rs : resumer) : Prop :=
  forall g c s s' r, rs g c s = Some (s', r) -> store_fwd s s'.

Lemma exec_fwd rs b : rs_fwd rs ->
  forall s s' o, exec rs b s = Some (s', o) -> store_fwd s s'.
Proof.
  intros Hrs. induction b as [v | e | m b IH | v k IH | inner IHi k IH | g c k IH];
    intros s s' o Hex; simpl in Hex.
  - injection Hex as <- _. apply store_fwd_refl.
  - injection Hex as <- _. apply store_fwd_refl.
  - eapply store_fwd_trans; [apply store_fwd_log | eauto].
  - injection Hex as <- _. apply store_fwd_refl.
  - destruct (exec rs inner s) as [[s1 [v k' | r | e]]|] eqn:Hi; try discriminate.
    + injection Hex as <- _. eauto.
    + eapply store_fwd_trans; [eapply IHi; eauto | eauto].
    + eapply store_fwd_trans; [eapply IHi; eauto | eauto].
  - destruct (rs g c s) as [[s1 r]|] eqn:Hr; try discriminate.
    eapply store_fwd_trans; [eapply Hrs; eauto | eauto].
Qed.

(** Overwriting the entry of [g] after a run: the other objects keep
    what the run did to them, [g] goes from [a] to [b] directly. *)
Lemma store_fwd_set s s1 g o o' :
  gens s !! g = Some o ->
  store_fwd (set_gen s g (mkGen Executing (gen_ctx o))) s1 ->
  fwd (gen_state o) (gen_state o') ->
  store_fwd s (set_gen s1 g o').
Proof.
  intros Hg [L F] Hf. split.
  - rewrite set_gen_length, L, set_gen_length. done.
  - intros i oi Hi. destruct (decide (i = g)) as [-> | Hne].
    + rewrite Hg in Hi. injection Hi as <-. exists o'. split; [|done].
      apply list_lookup_insert_eq. rewrite L, set_gen_length. by eapply lookup_lt_Some.
    + destruct (F i oi) as (o1 & H1 & Hf1).
      { simpl. rewrite list_lookup_insert_ne; auto. }
      exists o1. split; [|done]. simpl. rewrite list_lookup_insert_ne; auto.
Qed.

Lemma store_fwd_set1 s g o o' :
  gens s !! g = Some o -> fwd (gen_state o) (gen_state o') -> store_fwd s (set_gen s g o').
Proof.
  intros Hg Hf. split; [apply set_gen_length|].
  intros i oi Hi. destruct (decide (i = g)) as [-> | Hne].
  - rewrite Hg in Hi. injection Hi as <-. exists o'. split; [|done].
    apply list_lookup_insert_eq. by eapply lookup_lt_Some.
  - exists oi. split; [|apply fwd_refl]. simpl. rewrite list_lookup_insert_ne; auto.
Qed.

Lemma finish_fwd fuel g s o c s' r :
  gens s !! g = Some o -> runnable o c -> rs_fwd (rs_of fuel) ->
  finish g (exec (rs_of fuel) (gen_ctx o c) (set_gen s g (mkGen Executing (gen_ctx o))))
    = Some (s', r) ->
  store_fwd s s' /\ exists o', gens s' !! g = Some o' /\ gen_state o' <> SuspendedStart.
Proof.
  intros Hg Hrun Hrs Hfin.
  assert (Hnc : gen_state o <> Completed) by (destruct Hrun as [-> | [-> _]]; discriminate).
  destruct (exec (rs_of fuel) (gen_ctx o c) (set_gen s g (mkGen Executing (gen_ctx o))))
    as [[s1 [v k | v | e]]|] eqn:Hex; simpl in Hfin; try discriminate;
    injection Hfin as <- _;
    (assert (Hf1 : store_fwd (set_gen s g (mkGen Executing (gen_ctx o))) s1)
       by (eapply exec_fwd; [exact Hrs | exact Hex]));
    (split; [apply (store_fwd_set s s1 g o); [done | done | split; [discriminate | done]] |]);
    (eexists; split;
      [ apply list_lookup_insert_eq; destruct Hf1 as [L _]; rewrite L, set_gen_length;
        by eapply lookup_lt_Some
      | simpl; discriminate ]).
Qed.

(** One [next]/[throw] call moves every object forward, and leaves the
    object it was called on out of suspendedStart. *)
Lemma resume_fwd_gen fuel g c s s' r :
  rs_fwd (rs_of fuel) -> resume fuel g c s = Some (s', r) ->
  store_fwd s s' /\
  forall o, gens s !! g = Some o -> exists o', gens s' !! g = Some o' /\ gen_state o' <> SuspendedStart.
Proof.
  intros Hrs Hres. destruct (gens s !! g) as [o|] eqn:Hg.
  - destruct o as [stt C].
    assert (Hrun : stt = SuspendedYield \/ (stt = SuspendedStart /\ exists v, c = Normal v) ->
                   store_fwd s s' /\ exists o', gens s' !! g = Some o' /\ gen_state o' <> SuspendedStart).
    { intros Hr. rewrite (resume_run fuel g c s _ Hg Hr) in Hres.
      eapply finish_fwd; [exact Hg | exact Hr | exact Hrs | exact Hres]. }
    assert (Hkeep : forall r0, resume fuel g c s = Some (s, r0) -> stt <> SuspendedStart ->
                    store_fwd s s' /\ forall o, gens s !! g = Some o ->
                      exists o', gens s' !! g = Some o' /\ gen_state o' <> SuspendedStart).
    { intros r0 Hs Hns. rewrite Hs in Hres. injection Hres as <- _.
      split; [apply store_fwd_refl|]. intros o Ho. exists o. rewrite Hg in Ho.
      injection Ho as <-. split; [done | exact Hns]. }
    destruct stt; destruct c as [v | e].
    + destruct (Hrun ltac:(right; eauto)) as [Hf Ho]. split; [done|].
      intros o' Ho'. injection Ho' as <-. exact Ho.
    + destruct fuel; simpl in Hres; rewrite Hg in Hres; simpl in Hres;
        injection Hres as <- _;
        (split; [apply (store_fwd_set1 s g (mkGen SuspendedStart C));
                   [done | split; [done | discriminate]] |]);
        intros o' Ho'; exists (mkGen Completed done_ctx);
        (split; [apply list_lookup_insert_eq; by eapply lookup_lt_Some | discriminate]).
    + destruct (Hrun ltac:(left; done)) as [Hf Ho]. split; [done|].
      intros o' Ho'. injection Ho' as <-. exact Ho.
    + destruct (Hrun ltac:(left; done)) as [Hf Ho]. split; [done|].
      intros o' Ho'. injection Ho' as <-. exact Ho.
    + edestruct Hkeep as [A B]; [destruct fuel; simpl; rewrite Hg; reflexivity | discriminate |].
      split; [exact A|]. intros o Ho. apply (B o). rewrite Hg. exact Ho.
    + edestruct Hkeep as [A B]; [destruct fuel; simpl; rewrite Hg; reflexivity | discriminate |].
      split; [exact A|]. intros o Ho. apply (B o). rewrite Hg. exact Ho.
    + edestruct Hkeep as [A B]; [destruct fuel; simpl; rewrite Hg; reflexivity | discriminate |].
      split; [exact A|]. intros o Ho. apply (B o). rewrite Hg. exact Ho.
    + edestruct Hkeep as [A B]; [destruct fuel; simpl; rewrite Hg; reflexivity | discriminate |].
      split; [exact A|]. intros o Ho. apply (B o). rewrite Hg. exact Ho.
  - assert (Hs : resume fuel g c s = Some (s, Throw not_a_generator))
      by (destruct fuel; simpl; rewrite Hg; reflexivity).
    rewrite Hs in Hres. injection Hres as <- _. split; [apply store_fwd_refl|].
    intros o Ho. discriminate.
Qed.

Lemma resume_fwd fuel : rs_fwd (resume fuel).
Proof.
  induction fuel as [|f IH]; intros g c s s' r Hres;
    (eapply resume_fwd_gen; [| exact Hres]).
  - intros ? ? ? ? ? H. discriminate H.
  - exact IH.
Qed.

Lemma rs_of_fwd fuel : rs_fwd (rs_of fuel).
Proof. destruct fuel; [intros ? ? ? ? ? H; discriminate H | apply resume_fwd]. Qed.

Lemma next_completed fuel g C x s :
  gens s !! g = Some (mkGen Completed C) ->
  next fuel g x s = Some (s, Normal (VResult VUndef true)).
Proof. intros Hg. unfold next. destruct fuel; simpl; rewrite Hg; reflexivity. Qed.

(** C4: once a generator is completed, every further [next] call returns
    {value: undefined, done: true} and leaves the whole store unchanged,
    console output included: no statement of the body runs again. *)
Theorem C4_completed_noop fuel g C xs s :
  gens s !! g = Some (mkGen Completed C) ->
  nexts fuel g xs s = Some (s, map (fun _ => Normal (VResult VUndef true)) xs).
Proof.
  intros Hg. induction xs as [|x xs IH]; [reflexivity|].
  cbn [nexts]. rewrite (next_completed fuel g C x s Hg), IH. reflexivity.
Qed.

Lemma C4_completed_noop_witness :
  gens genFunc_done !! 0 = Some (mkGen Completed done_ctx) /\
  nexts 0 0 [VUndef; VStr "z"; VUndef] genFunc_done =
    Some (genFunc_done, map (fun _ => Normal (VResult VUndef true)) [VUndef; VStr "z"; VUndef]).
Proof.
  split; [reflexivity|].
  apply (C4_completed_noop 0 0 done_ctx [VUndef; VStr "z"; VUndef] genFunc_done).
  reflexivity.
Defined.

(** C5: the code diverges from its comment.  The comment of lines
    203-211 says [g().next('hello')] throws "TypeError: attempt to send
    'hello' to newborn generator"; run on a generator as the language
    defines it, the call does not fail: it starts [g] and returns
    {value: undefined, done: false}. *)
Lemma C5_first_next_with_value_accepted :
  exists s', next 0 (fst (create g_body init)) (VStr "hello") (snd (create g_body init)) =
             Some (s', Normal (VResult VUndef false)).
Proof. eexists. reflexivity. Qed.

(** C5: what the code does instead.  A fresh generator's context is at
    the start of its body (GeneratorStart), where no [yield] expression
    receives the value: the value passed to the first [next] is
    discarded, and [next(v)] behaves exactly as [next()], running the
    body to its first suspension; no error is raised for the value. *)
Theorem C5_first_input_ignored fuel b s v :
  next fuel (fst (create b s)) v (snd (create b s)) =
  next fuel (fst (create b s)) VUndef (snd (create b s)).
Proof.
  unfold next.
  rewrite !(resume_run fuel _ _ _ _ (create_lookup b s)) by (right; split; eauto).
  reflexivity.
Qed.

(** C6, counterexample: [throw] injected at the [yield] of the [co] body
    (lines 69-83) is caught by its handler, which logs the failure; the
    generator then finishes, so [throw] returns {value: undefined,
    done: true}, not a result with [done: false]. *)
Lemma C6_co_handler_completes :
  exists s', throw_into 0 0 read_error co_paused = Some (s', Normal (VResult VUndef true)) /\
             out s' = ["Failure to read: Error: ENOENT"] /\
             gens s' !! 0 = Some (mkGen Completed done_ctx).
Proof. eexists. split; [reflexivity | split; reflexivity]. Qed.

(** C6, amended: when [throw(e)] hits a [yield] wrapped in [try ... catch
    (e) { h(e) }], the error does not reach the caller: the [throw] call
    itself runs the handler and returns what it reaches next,
    {value: v, done: false} if it suspends at [yield v], or
    {value: r, done: true} if it returns [r]. *)
Theorem C6_handler_result fuel g k h e n s :
  gens s !! g = Some (mkGen SuspendedYield
                       (fun c => try_ (match c with Normal x => k x | Throw e => Raise e end) h)) ->
  npoints (h e) n ->
  exists s' r,
    throw_into fuel g e s = Some (s', Normal r) /\
    (n = 0 -> r = VResult (final_value (h e) []) true) /\
    (forall m, n = S m -> r = VResult (first_yield (h e)) false).
Proof.
  intros Hg Hnp. unfold throw_into.
  rewrite (resume_run fuel g _ s _ Hg) by (left; reflexivity). simpl.
  set (s1 := set_gen s g (mkGen Executing
               (fun c => try_ (match c with Normal x => k x | Throw e => Raise e end) h))).
  destruct n as [|m].
  - destruct (exec_npoints_0 (rs_of fuel) (h e) s1 Hnp) as [logs Hex]. rewrite Hex.
    do 2 eexists. split; [reflexivity|]. split; [reflexivity | discriminate].
  - destruct (exec_npoints_S (rs_of fuel) (h e) m s1 Hnp) as (logs & v & k' & Hex & _ & _).
    rewrite Hex. do 2 eexists. split; [reflexivity|]. split; [discriminate|].
    intros m' _. by rewrite (npoints_first_yield (rs_of fuel) (h e) m s1 _ v k' Hnp Hex).
Qed.

Lemma C6_handler_result_witness :
  (gens co_paused !! 0 = Some (mkGen SuspendedYield
      (fun c => try_ (match c with Normal x => co_block JSON_parse_id inspect_short x | Throw e => Raise e end)
                     co_handler)) /\
   npoints (co_handler read_error) 0) /\
  exists s' r,
    throw_into 0 0 read_error co_paused = Some (s', Normal r) /\
    (0 = 0 -> r = VResult (final_value (co_handler read_error) []) true) /\
    (forall m, 0 = S m -> r = VResult (first_yield (co_handler read_error)) false).
Proof.
  assert (Hg : gens co_paused !! 0 = Some (mkGen SuspendedYield
      (fun c => try_ (match c with Normal x => co_block JSON_parse_id inspect_short x | Throw e => Raise e end)
                     co_handler))) by reflexivity.
  assert (Hnp : npoints (co_handler read_error) 0) by (repeat constructor).
  split; [split; [exact Hg | exact Hnp] |].
  exact (C6_handler_result 0 0 (co_block JSON_parse_id inspect_short) co_handler read_error 0 co_paused Hg Hnp).
Defined.

(** C7, counterexample: a generator whose body throws and one whose body
    returns [undefined] end in the very same store after [next()]: the
    failed instance is completed like the other one and holds no record
    of the error; only the caller sees it. *)
Lemma C7_failure_not_recorded :
  exists s',
    next 0 0 VUndef (snd (create (Raise boom) init)) = Some (s', Throw boom) /\
    next 0 0 VUndef (snd (create (Ret VUndef) init)) = Some (s', Normal (VResult VUndef true)) /\
    next 0 0 VUndef s' = Some (s', Normal (VResult VUndef true)).
Proof. eexists. split; [reflexivity | split; reflexivity]. Qed.

(** C7, amended: if the body throws [e] while running for a [next] or
    [throw] call, that same [e] is thrown to the caller and the generator
    becomes completed (never resumable again); it keeps no record of the
    error: later [next] calls return {value: undefined, done: true}. *)
Theorem C7_failure_propagates fuel g c s o s2 e :
  gens s !! g = Some o -> runnable o c ->
  exec (rs_of fuel) (gen_ctx o c) (set_gen s g (mkGen Executing (gen_ctx o))) = Some (s2, OThrow e) ->
  resume fuel g c s = Some (set_gen s2 g (mkGen Completed done_ctx), Throw e) /\
  gens (set_gen s2 g (mkGen Completed done_ctx)) !! g = Some (mkGen Completed done_ctx) /\
  forall fuel' v,
    next fuel' g v (set_gen s2 g (mkGen Completed done_ctx)) =
      Some (set_gen s2 g (mkGen Completed done_ctx), Normal (VResult VUndef true)).
Proof.
  intros Hg Hrun Hex.
  assert (Hlook : gens (set_gen s2 g (mkGen Completed done_ctx)) !! g = Some (mkGen Completed done_ctx)).
  { apply list_lookup_insert_eq.
    destruct (exec_fwd _ _ (rs_of_fwd fuel) _ _ _ Hex) as [L _].
    rewrite L, set_gen_length. by eapply lookup_lt_Some. }
  split; [rewrite (resume_run fuel g c s o Hg Hrun), Hex; reflexivity|].
  split; [exact Hlook|].
  intros fuel' v. exact (next_completed fuel' g done_ctx v _ Hlook).
Qed.

Lemma C7_failure_propagates_witness :
  (gens (snd (create (Raise boom) init)) !! 0 = Some (mkGen SuspendedStart (fun _ => Raise boom)) /\
   runnable (mkGen SuspendedStart (fun _ => Raise boom)) (Normal VUndef) /\
   exec (rs_of 0) (Raise boom)
        (set_gen (snd (create (Raise boom) init)) 0 (mkGen Executing (fun _ => Raise boom)))
     = Some (set_gen (snd (create (Raise boom) init)) 0 (mkGen Executing (fun _ => Raise boom)),
             OThrow boom)) /\
  (resume 0 0 (Normal VUndef) (snd (create (Raise boom) init)) =
     Some (set_gen (set_gen (snd (create (Raise boom) init)) 0 (mkGen Executing (fun _ => Raise boom)))
                   0 (mkGen Completed done_ctx), Throw boom) /\
   gens (set_gen (set_gen (snd (create (Raise boom) init)) 0 (mkGen Executing (fun _ => Raise boom)))
                 0 (mkGen Completed done_ctx)) !! 0 = Some (mkGen Completed done_ctx) /\
   forall fuel' v,
     next fuel' 0 v (set_gen (set_gen (snd (create (Raise boom) init)) 0
                                      (mkGen Executing (fun _ => Raise boom)))
                             0 (mkGen Completed done_ctx)) =
       Some (set_gen (set_gen (snd (create (Raise boom) init)) 0
                              (mkGen Executing (fun _ => Raise boom)))
                     0 (mkGen Completed done_ctx), Normal (VResult VUndef true))).
Proof.
  assert (Hg : gens (snd (create (Raise boom) init)) !! 0
               = Some (mkGen SuspendedStart (fun _ => Raise boom))) by reflexivity.
  assert (Hr : runnable (mkGen SuspendedStart (fun _ => Raise boom)) (Normal VUndef))
    by (right; split; [reflexivity | eauto]).
  assert (Hex : exec (rs_of 0) (Raise boom)
        (set_gen (snd (create (Raise boom) init)) 0 (mkGen Executing (fun _ => Raise boom)))
     = Some (set_gen (snd (create (Raise boom) init)) 0 (mkGen Executing (fun _ => Raise boom)),
             OThrow boom)) by reflexivity.
  split; [split; [exact Hg | split; [exact Hr | exact Hex]] |].
  exact (C7_failure_propagates 0 0 (Normal VUndef) _ _ _ boom Hg Hr Hex).
Defined.

(** C9: a generator object is created in suspendedStart; every [next] or
    [throw] call (including the ones bodies make on other objects) and
    every [close] ([return]) call moves every object forward only (never
    back to suspendedStart, never out of completed) and leaves the object
    it was called on out of suspendedStart; a [next], [throw] or [close]
    call on an executing object (a re-entrant call) throws the "already
    running" TypeError and changes nothing. *)
Theorem C9_lifecycle_forward :
  (forall b s, gens (snd (create b s)) !! fst (create b s) = Some (mkGen SuspendedStart (fun _ => b))) /\
  (forall fuel g c s s' r,
     resume fuel g c s = Some (s', r) ->
     store_fwd s s' /\
     forall o, gens s !! g = Some o ->
       exists o', gens s' !! g = Some o' /\ gen_state o' <> SuspendedStart) /\
  (forall g v s s' r,
     close g v s = (s', r) ->
     store_fwd s s' /\
     forall o, gens s !! g = Some o ->
       exists o', gens s' !! g = Some o' /\ gen_state o' <> SuspendedStart) /\
  (forall fuel g c v s C,
     gens s !! g = Some (mkGen Executing C) ->
     resume fuel g c s = Some (s, Throw already_running) /\
     close g v s = (s, Throw already_running)).
Proof.
  split; [exact create_lookup|]. split; [|split].
  - intros fuel g c s s' r Hres. exact (resume_fwd_gen fuel g c s s' r (rs_of_fwd fuel) Hres).
  - intros g v s s' r Hc. unfold close in Hc.
    destruct (gens s !! g) as [[stt C]|] eqn:Hg.
    + destruct stt; simpl in Hc; injection Hc as <- _.
      * split; [apply (store_fwd_set1 s g (mkGen SuspendedStart C)); [done | split; [discriminate | done]]|].
        intros o Ho. exists (mkGen Completed done_ctx).
        split; [apply list_lookup_insert_eq; by eapply lookup_lt_Some | discriminate].
      * split; [apply (store_fwd_set1 s g (mkGen SuspendedYield C)); [done | split; [discriminate | done]]|].
        intros o Ho. exists (mkGen Completed done_ctx).
        split; [apply list_lookup_insert_eq; by eapply lookup_lt_Some | discriminate].
      * split; [apply store_fwd_refl|]. intros o Ho. exists o.
        injection Ho as <-. split; [done | discriminate].
      * split; [apply store_fwd_refl|]. intros o Ho. exists o.
        injection Ho as <-. split; [done | discriminate].
    + injection Hc as <- _. split; [apply store_fwd_refl|]. intros o Ho. discriminate.
  - intros fuel g c v s C Hg. split.
    + destruct fuel; simpl; rewrite Hg; reflexivity.
    + unfold close. rewrite Hg. reflexivity.
Qed.

Example reentrant_next :
  exists s', next 1 0 VUndef (snd (create reentrant init)) = Some (s', Throw already_running) /\
             gens s' !! 0 = Some (mkGen Completed done_ctx).
Proof. eexists. split; reflexivity. Qed.

(** C10: when a generator is paused at [yield] (its context is that of
    [yield_ v k]), [next(x)] continues the body with the [yield]
    expression evaluating to [x] (it runs [k x]) and reports what that
    run reaches next: the following [yield] or the return.  In
    [dataConsumer], [next('a')] logs "1. a" and [next('b')] logs "2. b". *)
Theorem C10_next_value_feeds_yield :
  (forall fuel g k s x,
     gens s !! g = Some (mkGen SuspendedYield
                          (fun c => match c with Normal y => k y | Throw e => Raise e end)) ->
     next fuel g x s =
       finish g (exec (rs_of fuel) (k x)
                  (set_gen s g (mkGen Executing
                     (fun c => match c with Normal y => k y | Throw e => Raise e end))))) /\
  exists s1 s2,
    next 0 0 (VStr "a") dataConsumer_paused = Some (s1, Normal (VResult VUndef false)) /\
    out s1 = ["Started"; "1. a"] /\
    next 0 0 (VStr "b") s1 = Some (s2, Normal (VResult (VStr "result") true)) /\
    out s2 = ["Started"; "1. a"; "2. b"].
Proof.
  split.
  - intros fuel g k s x Hg. unfold next.
    rewrite (resume_run fuel g _ s _ Hg) by (left; reflexivity). reflexivity.
  - do 2 eexists. split; [reflexivity|]. split; [reflexivity|].
    split; reflexivity.
Qed.

(** ** Further properties of the code *)

Example objectEntries_jane :
  drain 0 3 0 (snd (create (objectEntries jane) init)) =
    Some [VList [VStr "first"; VStr "Jane"]; VList [VStr "last"; VStr "Doe"]].
Proof. vm_compute. reflexivity. Qed.

Example tree_run :
  drain 0 6 0 (snd (create (tree_iter source_tree) init)) =
    Some [VStr "a"; VStr "b"; VStr "c"; VStr "d"; VStr "e"].
Proof. vm_compute. reflexivity. Qed.

Example own_keys_order :
  own_keys [("b", VUndef); ("10", VUndef); ("a", VUndef); ("2", VUndef); ("01", VUndef)]
  = ["2"; "10"; "b"; "a"; "01"].
Proof. vm_compute. reflexivity. Qed.

Example dataConsumer_undefined_element :
  exists s1,
    next 0 0 (VList [VUndef]) dataConsumer_paused = Some (s1, Normal (VResult VUndef false)) /\
    out s1 = ["Started"; "1. "].
Proof. eexists. split; reflexivity. Qed.

Example co_string_destructured :
  exists s2,
    next 0 0 (VStr "12")
      co_paused
    = Some (s2, Normal (VResult VUndef true)) /\
    out s2 = ["1"; "2"].
Proof. eexists. split; reflexivity. Qed.

Example co_array_inspected :
  exists s2,
    next 0 0 (VList [VList [VStr "p"]; VStr "q"])
      co_paused
    = Some (s2, Normal (VResult VUndef true)) /\
    out s2 = ["[ 'p' ]"; "q"].
Proof. eexists. split; reflexivity. Qed.

Example genFunc_closed :
  close 0 (VStr "early") (after_nexts 0 0 [VUndef] (snd (create genFunc init)))
  = (mkSt [mkGen Completed done_ctx] ["First"], Normal (VResult (VStr "early") true)).
Proof. reflexivity. Qed.

(** ** Nested delegation *)

Lemma exec_plug_yield rs ks : forall b s s' v k,
  exec rs b s = Some (s', OYield v k) ->
  exec rs (plug ks b) s = Some (s', OYield v (fun c => plug ks (k c))).
Proof.
  induction ks as [|K ks IH]; intros b s s' v k Hb; [exact Hb|].
  cbn [plug]. apply (IH (Deleg b K) s s' v (fun c => Deleg (k c) K)).
  simpl. rewrite Hb. reflexivity.
Qed.

Lemma exec_plug_cong ks : forall b b',
  (forall rs s, exec rs b s = exec rs b' s) ->
  forall rs s, exec rs (plug ks b) s = exec rs (plug ks b') s.
Proof.
  induction ks as [|K ks IH]; intros b b' H; [exact H|].
  cbn [plug]. apply IH. intros rs s. simpl. rewrite H. reflexivity.
Qed.

Lemma drains_from_ext fuel n g T T' rest :
  drains_from fuel n g T rest ->
  (forall rs s, exec rs T' s = exec rs T s) ->
  drains_from fuel n g T' rest.
Proof.
  intros HT HTT' s C stt Hg Hst HC. apply (HT s C stt Hg Hst).
  intros rs s0. rewrite HC. apply HTT'.
Qed.

Lemma emits_ret r : emits (Ret r) [] r.
Proof. intros fuel n g ks rest H. exact H. Qed.

Lemma emits_yield v k vs r : emits (k VUndef) vs r -> emits (yield_ v k) (v :: vs) r.
Proof.
  intros Hk fuel n g ks rest H s C stt Hg Hst HC. cbn [length Nat.add app].
  set (K := fun c => plug ks (match c with Normal x => k x | Throw e => Raise e end)).
  set (s1 := set_gen s g (mkGen Executing C)).
  rewrite (drain_step _ _ _ _ _ v K s1 Hg (runnable_of _ _ _ Hst)).
  - rewrite (Hk fuel n g ks rest H (set_gen s1 g (mkGen SuspendedYield K)) K SuspendedYield);
      [reflexivity | | by right | by auto].
    eapply set_gen_lookup_eq, set_gen_lookup_eq, Hg.
  - simpl. rewrite HC. by apply exec_plug_yield.
Qed.

Lemma emits_deleg inner K vs1 r1 vs2 r :
  emits inner vs1 r1 -> emits (K (Normal r1)) vs2 r ->
  emits (Deleg inner K) (vs1 ++ vs2) r.
Proof.
  intros Hi HK fuel n g ks rest H.
  assert (H2 : drains_from fuel (length vs2 + n) g (plug (K :: ks) (Ret r1)) (vs2 ++ rest)).
  { eapply drains_from_ext; [exact (HK fuel n g ks rest H)|].
    intros rs s. apply (exec_plug_cong ks (Deleg (Ret r1) K) (K (Normal r1))).
    intros rs' s'. reflexivity. }
  pose proof (Hi fuel (length vs2 + n) g (K :: ks) (vs2 ++ rest) H2) as H1.
  rewrite length_app, <- Nat.add_assoc, <- app_assoc. exact H1.
Qed.

Lemma emits_yield_star inner k vs1 r1 vs2 r :
  emits inner vs1 r1 -> emits (k r1) vs2 r ->
  emits (yield_star inner k) (vs1 ++ vs2) r.
Proof.
  intros Hi Hk.
  exact (emits_deleg inner (fun c => match c with Normal x => k x | Throw e => Raise e end)
           vs1 r1 vs2 r Hi Hk).
Qed.

Lemma emits_drain fuel b vs r s :
  emits b vs r ->
  drain fuel (length vs + 1) (fst (create b s)) (snd (create b s)) = Some vs.
Proof.
  intros Hb.
  pose proof (Hb fuel 1 _ [] [] (drains_from_ret fuel 0 _ r) _ (fun _ => b) SuspendedStart
                (create_lookup b s) (or_introl eq_refl) (fun _ _ => eq_refl)) as H.
  by rewrite app_nil_r in H.
Qed.

Lemma emits_tree_after r :
  emits (tree_iter r) (preorder r) VUndef ->
  emits (match r with BNull => Ret VUndef | _ => yield_star (tree_iter r) (fun _ => Ret VUndef) end)
        (preorder r) VUndef.
Proof.
  intros Hr. destruct r as [|v l r'].
  - apply emits_ret.
  - rewrite <- (app_nil_r (preorder (BNode v l r'))).
    apply (emits_yield_star _ _ _ VUndef); [exact Hr | apply emits_ret].
Qed.

Lemma emits_tree t : emits (tree_iter t) (preorder t) VUndef.
Proof.
  induction t as [|v l IHl r IHr]; [apply emits_ret|].
  cbn [tree_iter preorder]. apply emits_yield. cbv beta.
  destruct l as [|lv ll lr].
  - apply emits_tree_after, IHr.
  - apply (emits_yield_star _ _ _ VUndef); [exact IHl | apply emits_tree_after, IHr].
Qed.

(** ** for-of loops whose body is one [yield] *)

Lemma for_of_yields f xs T :
  for_of xs (fun x rest => yield_ (f x) (fun _ => rest)) T = yields_then (map f xs) T.
Proof. induction xs as [|x xs IH]; [done|]. simpl. by rewrite IH. Qed.

Lemma yields_then_drain fuel vs s :
  drain fuel (length vs + 1) (fst (create (yields_then vs (Ret VUndef)) s))
        (snd (create (yields_then vs (Ret VUndef)) s)) = Some vs.
Proof.
  pose proof (drains_from_yields_then fuel 1 _ (Ret VUndef) [] vs (drains_from_ret fuel 0 _ VUndef)
           _ _ SuspendedStart (create_lookup _ s) (or_introl eq_refl) (fun _ _ => eq_refl)) as H.
  by rewrite app_nil_r in H.
Qed.

(** ** Own keys *)

Lemma filter_none (p : string -> bool) ks :
  Forall (fun k => p k = false) ks -> List.filter p ks = [].
Proof. induction 1 as [|k ks Hk _ IH]; [done|]. simpl. by rewrite Hk. Qed.

Lemma filter_all (p : string -> bool) ks :
  Forall (fun k => p k = false) ks -> List.filter (fun k => negb (p k)) ks = ks.
Proof. induction 1 as [|k ks Hk _ IH]; [done|]. simpl. by rewrite Hk, IH. Qed.

Lemma entries_in_order (obj : jsobj) :
  NoDup (map fst obj) ->
  map (fun k => VList [VStr k; get obj k]) (map fst obj)
  = map (fun kv => VList [VStr kv.1; kv.2]) obj.
Proof.
  induction obj as [|[k v] r IH]; intros Hnd; [done|].
  simpl in Hnd. apply NoDup_cons in Hnd as [Hk Hnd]. simpl.
  rewrite decide_True by done. f_equal. rewrite <- IH by exact Hnd.
  apply List.map_ext_in. intros k' Hin.
  rewrite decide_False; [done|]. intros ->. apply Hk, list_elem_of_In, Hin.
Qed.

(** ** The body handed to co, after its [yield] *)

Lemma co_after_yield parse inspect v rs s :
  exists logs,
    exec rs (try_ (co_block parse inspect v) co_handler) s
      = Some (mkSt (gens s) (out s ++ logs), OReturn VUndef) /\
    ((exists x y a b, destructure2 v = Some (x, y) /\ parse x = Normal a /\
                      parse y = Normal b /\
                      logs = [console_str inspect a; console_str inspect b]) \/
     (exists err, logs = [String.append "Failure to read: " (to_str err)] /\
        (destructure2 v = None \/
         exists x y, destructure2 v = Some (x, y) /\
           (parse x = Throw err \/ exists a, parse x = Normal a /\ parse y = Throw err)))).
Proof.
  destruct s as [gs os]. unfold co_block.
  destruct (destructure2 v) as [[x y]|] eqn:Hd.
  - destruct (parse x) as [a|e0] eqn:Ha; [destruct (parse y) as [b|e1] eqn:Hb|].
    + exists [console_str inspect a; console_str inspect b].
      split; [|left; exists x, y, a, b; auto].
      simpl. unfold log. simpl. by rewrite <- app_assoc.
    + eexists. split; [reflexivity|]. right. exists e1. split; [reflexivity|].
      right. exists x, y. split; [done|]. right. by exists a.
    + eexists. split; [reflexivity|]. right. exists e0. split; [reflexivity|].
      right. exists x, y. split; [done|]. by left.
  - eexists. split; [reflexivity|]. right. eexists. split; [reflexivity|]. by left.
Qed.

Lemma runnable_yield C c : runnable (mkGen SuspendedYield C) c.
Proof. by left. Qed.

Lemma runnable_start C v : runnable (mkGen SuspendedStart C) (Normal v).
Proof. right. split; [done | by exists v]. Qed.

(** ** Further properties of the code *)

(** objectEntries (lines 40-51): spreading the generator gives, for every
    own key in [Reflect.ownKeys] order, the pair [[key, obj[key]]]. *)
Theorem objectEntries_pairs fuel obj s :
  drain fuel (length (own_keys obj) + 1)
        (fst (create (objectEntries obj) s)) (snd (create (objectEntries obj) s))
  = Some (map (fun k => VList [VStr k; get obj k]) (own_keys obj)).
Proof.
  unfold objectEntries.
  rewrite (for_of_yields (fun propKey => VList [propKey; prop obj propKey])), List.map_map.
  rewrite <- (length_map (fun x => VList [VStr x; prop obj (VStr x)]) (own_keys obj)).
  apply yields_then_drain.
Qed.

(** objectEntries on an object whose keys are not array indices (like
    [jane], lines 53-59): the pairs come in the order the properties were
    created, each with its own value. *)
Theorem objectEntries_insertion_order fuel (obj : jsobj) s :
  NoDup (map fst obj) ->
  Forall (fun k => is_array_index k = false) (map fst obj) ->
  drain fuel (length obj + 1)
        (fst (create (objectEntries obj) s)) (snd (create (objectEntries obj) s))
  = Some (map (fun kv => VList [VStr kv.1; kv.2]) obj).
Proof.
  intros Hnd Hidx.
  assert (Hk : own_keys obj = map fst obj).
  { unfold own_keys. rewrite (filter_none _ _ Hidx), (filter_all _ _ Hidx). reflexivity. }
  pose proof (objectEntries_pairs fuel obj s) as H.
  rewrite Hk, length_map, entries_in_order in H by exact Hnd. exact H.
Qed.

Lemma objectEntries_insertion_order_witness :
  (NoDup (map fst jane) /\ Forall (fun k => is_array_index k = false) (map fst jane)) /\
  drain 0 (length jane + 1)
        (fst (create (objectEntries jane) init)) (snd (create (objectEntries jane) init))
  = Some (map (fun kv => VList [VStr kv.1; kv.2]) jane).
Proof.
  assert (Hnd : NoDup (map fst jane)) by (apply (bool_decide_unpack _); vm_compute; reflexivity).
  assert (Hidx : Forall (fun k => is_array_index k = false) (map fst jane))
    by (repeat constructor).
  split; [split; assumption|].
  apply (objectEntries_insertion_order 0 jane init Hnd Hidx).
Defined.

(** BinaryTree (lines 113-130): the iterator, recursing through
    [yield*] on both subtrees, yields the values of any tree in prefix
    order (node, left subtree, right subtree), then is done. *)
Theorem tree_iter_preorder fuel t s :
  drain fuel (length (preorder t) + 1)
        (fst (create (tree_iter t) s)) (snd (create (tree_iter t) s))
  = Some (preorder t).
Proof. apply (emits_drain _ _ _ VUndef), emits_tree. Qed.

(** The refactored genFunc (lines 158-162): a generator that yields each
    element of an array in a for-of loop yields exactly that array. *)
Theorem for_yield_elements fuel xs s :
  drain fuel (length xs + 1) (fst (create (for_yield xs) s)) (snd (create (for_yield xs) s))
  = Some xs.
Proof.
  pose proof (for_of_yields (fun x => x) xs (Ret VUndef)) as H.
  rewrite List.map_id in H. unfold for_yield. rewrite H. apply yields_then_drain.
Qed.

(** co's generator (lines 69-83), for any host functions and any store:
    it never lets an exception out.  If evaluating the [yield] operand
    throws [e0] (a [getFile] call), the first [next] prints
    "Failure to read: " and [e0] and returns {value: undefined, done:
    true}.  Otherwise the first [next] yields the promise [p] and prints
    nothing; then, whatever value [v] it is resumed with, or whatever
    error [e] is thrown into it, the call returns {value: undefined,
    done: true} and the generator is completed.  Resumed with [v], it
    prints the two parsed values when [v] destructures into two strings
    that both parse, and otherwise one "Failure to read: " line for the
    error raised (the destructuring's TypeError or JSON.parse's
    exception); thrown [e], it prints [e]'s line. *)
Theorem co_body_never_throws fuel all parse inspect s v e :
  (forall e0, all = Throw e0 ->
     exists s1,
       next fuel (fst (create (co_body all parse inspect) s)) VUndef
            (snd (create (co_body all parse inspect) s))
         = Some (s1, Normal (VResult VUndef true)) /\
       gens s1 !! fst (create (co_body all parse inspect) s) = Some (mkGen Completed done_ctx) /\
       out s1 = out s ++ [String.append "Failure to read: " (to_str e0)]) /\
  (forall p, all = Normal p ->
   exists s1,
    next fuel (fst (create (co_body all parse inspect) s)) VUndef
         (snd (create (co_body all parse inspect) s))
      = Some (s1, Normal (VResult p false)) /\
    out s1 = out s /\
    (exists s2,
       next fuel (fst (create (co_body all parse inspect) s)) v s1
         = Some (s2, Normal (VResult VUndef true)) /\
       gens s2 !! fst (create (co_body all parse inspect) s) = Some (mkGen Completed done_ctx) /\
       ((exists x y a b, destructure2 v = Some (x, y) /\ parse x = Normal a /\
                         parse y = Normal b /\
                         out s2 = out s ++ [console_str inspect a; console_str inspect b]) \/
        (exists err, out s2 = out s ++ [String.append "Failure to read: " (to_str err)] /\
           (destructure2 v = None \/
            exists x y, destructure2 v = Some (x, y) /\
              (parse x = Throw err \/ exists a, parse x = Normal a /\ parse y = Throw err))))) /\
    (exists s2,
       throw_into fuel (fst (create (co_body all parse inspect) s)) e s1
         = Some (s2, Normal (VResult VUndef true)) /\
       gens s2 !! fst (create (co_body all parse inspect) s) = Some (mkGen Completed done_ctx) /\
       out s2 = out s ++ [String.append "Failure to read: " (to_str e)])).
Proof.
  set (g := fst (create (co_body all parse inspect) s)).
  set (s0 := snd (create (co_body all parse inspect) s)).
  pose proof (create_lookup (co_body all parse inspect) s) as Hg0. fold g s0 in Hg0.
  split.
  - intros e0 Hall. eexists. split; [|split].
    + unfold next. rewrite (resume_run fuel g _ s0 _ Hg0 (runnable_start _ _)).
      unfold co_body. rewrite Hall. reflexivity.
    + eapply set_gen_lookup_eq, set_gen_lookup_eq, Hg0.
    + reflexivity.
  - intros p ->.
    set (K := fun c => try_ (match c with Normal x => co_block parse inspect x
                                        | Throw e => Raise e end) co_handler).
    set (s1 := set_gen (set_gen s0 g (mkGen Executing (fun _ => co_body (Normal p) parse inspect)))
                       g (mkGen SuspendedYield K)).
    assert (Hg1 : gens s1 !! g = Some (mkGen SuspendedYield K))
      by (eapply set_gen_lookup_eq, set_gen_lookup_eq, Hg0).
    exists s1. split; [|split; [reflexivity | split]].
    + unfold next. rewrite (resume_run fuel g _ s0 _ Hg0 (runnable_start _ _)).
      reflexivity.
    + destruct (co_after_yield parse inspect v (rs_of fuel) (set_gen s1 g (mkGen Executing K)))
        as (logs & Hex & Hlogs).
      eexists. split; [|split].
      * unfold next. rewrite (resume_run fuel g _ s1 _ Hg1 (runnable_yield _ _)).
        cbn [gen_ctx]. change (K (Normal v)) with (try_ (co_block parse inspect v) co_handler).
        rewrite Hex. reflexivity.
      * eapply set_gen_lookup_eq, set_gen_lookup_eq, Hg1.
      * destruct Hlogs as [(x & y & a & b & Hd & Ha & Hb & ->) | (err & -> & Herr)].
        -- left. exists x, y, a, b. auto.
        -- right. exists err. auto.
    + eexists. split; [|split].
      * unfold throw_into. rewrite (resume_run fuel g _ s1 _ Hg1 (runnable_yield _ _)).
        reflexivity.
      * eapply set_gen_lookup_eq, set_gen_lookup_eq, Hg1.
      * reflexivity.
Qed.

(** genFunc (lines 15-33), from any store and with any arguments to
    [next]: creating the generator prints nothing; the first [next]
    prints "First" and suspends with {value: undefined, done: false}; the
    second prints "Second" and returns {value: undefined, done: true}. *)
Theorem genFunc_runs_lazily fuel s x0 x1 :
  out (snd (create genFunc s)) = out s /\
  exists s1 s2,
    next fuel (fst (create genFunc s)) x0 (snd (create genFunc s))
      = Some (s1, Normal (VResult VUndef false)) /\
    out s1 = out s ++ ["First"] /\
    next fuel (fst (create genFunc s)) x1 s1 = Some (s2, Normal (VResult VUndef true)) /\
    out s2 = out s ++ ["First"; "Second"].
Proof.
  split; [reflexivity|].
  set (g := fst (create genFunc s)). set (s0 := snd (create genFunc s)).
  pose proof (create_lookup genFunc s) as Hg0. fold g s0 in Hg0.
  set (K := fun c => match c with Normal _ => Log "Second" (Ret VUndef) | Throw e => Raise e end).
  set (s1 := set_gen (log (set_gen s0 g (mkGen Executing (fun _ => genFunc))) "First")
                     g (mkGen SuspendedYield K)).
  assert (Hg1 : gens s1 !! g = Some (mkGen SuspendedYield K))
    by (eapply set_gen_lookup_eq, set_gen_lookup_eq, Hg0).
  exists s1. eexists. split; [|split; [reflexivity | split]].
  - unfold next. rewrite (resume_run fuel g _ s0 _ Hg0 (runnable_start _ _)). reflexivity.
  - unfold next. rewrite (resume_run fuel g _ s1 _ Hg1 (runnable_yield _ _)). reflexivity.
  - cbv [s1 s0 out log set_gen create snd]. by rewrite <- app_assoc.
Qed.

(** dataConsumer (lines 172-199), from any store and for any two values
    [a] and [b]: [next()] prints "Started", [next(a)] prints "1. " and
    [a], [next(b)] prints "2. " and [b]; the calls return
    {undefined, false}, {undefined, false} and {'result', true}. *)
Theorem dataConsumer_prints_inputs fuel s a b :
  exists s1 s2 s3,
    next fuel (fst (create dataConsumer s)) VUndef (snd (create dataConsumer s))
      = Some (s1, Normal (VResult VUndef false)) /\
    out s1 = out s ++ ["Started"] /\
    next fuel (fst (create dataConsumer s)) a s1 = Some (s2, Normal (VResult VUndef false)) /\
    out s2 = out s ++ ["Started"; String.append "1. " (to_str a)] /\
    next fuel (fst (create dataConsumer s)) b s2
      = Some (s3, Normal (VResult (VStr "result") true)) /\
    out s3 = out s ++ ["Started"; String.append "1. " (to_str a); String.append "2. " (to_str b)].
Proof.
  set (g := fst (create dataConsumer s)). set (s0 := snd (create dataConsumer s)).
  pose proof (create_lookup dataConsumer s) as Hg0. fold g s0 in Hg0.
  set (K2 := fun c : completion => match c with
             | Normal x2 => Log (String.append "2. " (to_str x2)) (Ret (VStr "result"))
             | Throw e => Raise e end).
  set (K1 := fun c : completion => match c with
             | Normal x1 => Log (String.append "1. " (to_str x1)) (Yield VUndef K2)
             | Throw e => Raise e end).
  set (s1 := set_gen (log (set_gen s0 g (mkGen Executing (fun _ => dataConsumer))) "Started")
                     g (mkGen SuspendedYield K1)).
  assert (Hg1 : gens s1 !! g = Some (mkGen SuspendedYield K1))
    by (eapply set_gen_lookup_eq, set_gen_lookup_eq, Hg0).
  set (s2 := set_gen (log (set_gen s1 g (mkGen Executing K1)) (String.append "1. " (to_str a)))
                     g (mkGen SuspendedYield K2)).
  assert (Hg2 : gens s2 !! g = Some (mkGen SuspendedYield K2))
    by (eapply set_gen_lookup_eq, set_gen_lookup_eq, Hg1).
  exists s1, s2. eexists. split; [|split; [reflexivity | split; [|split; [|split]]]].
  - unfold next. rewrite (resume_run fuel g _ s0 _ Hg0 (runnable_start _ _)). reflexivity.
  - unfold next. rewrite (resume_run fuel g _ s1 _ Hg1 (runnable_yield _ _)). reflexivity.
  - cbv [s2 s1 s0 out log set_gen create snd]. by rewrite <- app_assoc.
  - unfold next. rewrite (resume_run fuel g _ s2 _ Hg2 (runnable_yield _ _)). reflexivity.
  - cbv [s2 s1 s0 out log set_gen create snd]. by rewrite <- !app_assoc.
Qed.
